(** * beautiful-thirteen: the counter of "beautiful" base-13 numbers

    A shallow embedding of [src/beautiful.hpp] (namespace
    [beautiful_numbers]) and the properties of its four functions
    [binomial_n_5], [ways_for_sum], [build_ways_lookup_table] and
    [count_beautiful_numbers].

    Machine integers are mathematical integers ([Z]) together with the
    width they live in.  C++ leaves signed overflow and out-of-bounds
    indexing undefined, so every arithmetic step is evaluated in a small
    monad that carries two things: the value a two's-complement machine
    produces (the exact result wrapped into the width) and a flag telling
    whether some step so far left the defined behaviour of the language. *)

From Stdlib Require Import ZArith Lia Bool.
From stdpp Require Import base list numbers.

Open Scope Z_scope.

(** ** Evaluation results *)

Record M (A : Type) : Type := Run { value : A; ub : bool }.
Arguments Run {A} _ _.
Arguments value {A} _.
Arguments ub {A} _.

#[global] Instance M_ret : MRet M := λ A x, Run x false.
#[global] Instance M_bind : MBind M :=
  λ A B f m, let r := f (value m) in Run (value r) (ub m || ub r).

(** A step whose behaviour the language does not define; [x] is the value
    the model keeps going with. *)
Definition undefined {A} (x : A) : M A := Run x true.

(** ** Signed integers *)

Module Int.

(** The two widths the program uses: [int] and [int64_t]. *)
Inductive width : Set := W32 | W64.

Definition bits (w : width) : Z :=
  match w with W32 => 32 | W64 => 64 end.

(** [half w] is [2 ^ (bits w - 1)]. *)
Definition half (w : width) : Z :=
  match w with W32 => 2147483648 | W64 => 9223372036854775808 end.

Definition min_signed (w : width) : Z := - half w.
Definition max_signed (w : width) : Z := half w - 1.

Definition in_range (w : width) (z : Z) : bool :=
  (min_signed w <=? z) && (z <=? max_signed w).

(** Two's-complement reduction of [z] into [min_signed w .. max_signed w]. *)
Definition wrap (w : width) (z : Z) : Z :=
  (z + half w) mod (2 * half w) - half w.

(** The result of a signed operation whose exact value is [z]: [z] itself
    when the width can hold it, otherwise undefined, with the wrapped
    value as what a two's-complement machine leaves behind. *)
Definition arith (w : width) (z : Z) : M Z :=
  if in_range w z then mret z else undefined (wrap w z).

End Int.

Abbreviation W32 := Int.W32.
Abbreviation W64 := Int.W64.

Definition add32 (a b : Z) : M Z := Int.arith W32 (a + b).
Definition sub32 (a b : Z) : M Z := Int.arith W32 (a - b).
Definition mul32 (a b : Z) : M Z := Int.arith W32 (a * b).
Definition neg32 (a : Z) : M Z := Int.arith W32 (- a).

Definition add64 (a b : Z) : M Z := Int.arith W64 (a + b).
Definition sub64 (a b : Z) : M Z := Int.arith W64 (a - b).
Definition mul64 (a b : Z) : M Z := Int.arith W64 (a * b).

(** [/] on [int64_t] truncates towards zero; a zero divisor is undefined. *)
Definition div64 (a b : Z) : M Z :=
  if b =? 0 then undefined 0 else Int.arith W64 (a ÷ b).

(** The conversion [int] to [int64_t] keeps the value. *)
Definition int64_of_int (n : Z) : Z := n.

(** ** Fixed-size arrays ([std::array<int64_t, N>]) *)

Definition array_get (a : list Z) (i : Z) : M Z :=
  if i <? 0 then undefined 0
  else match a !! Z.to_nat i with
       | Some v => mret v
       | None => undefined 0
       end.

Definition array_set (a : list Z) (i v : Z) : M (list Z) :=
  if (0 <=? i) && (i <? Z.of_nat (length a))
  then mret (<[Z.to_nat i := v]> a)
  else undefined a.

(** ** The program

    A counting loop [for (int i = 0; i <= n; ++i)] whose body does not
    assign [i] is written as a recursion over the list [seqZ 0 (n + 1)] of
    the values [i] takes; [break] ends the recursion.  The bounds are the
    constants 6 and 72, so [++i] never leaves [int]. *)

Definition kDigits : Z := 6.
Definition kBase : Z := 13.
Definition kMaxSum : Z := (kBase - 1) * kDigits.

(** [(m * (m - 1) * (m - 2) * (m - 3) * (m - 4)) / 120], multiplied from the
    left, every step in [int64_t]. *)
Definition binomial_n_5 (n_ : Z) : M Z :=
  if n_ <? 5 then mret 0
  else
    let m := int64_of_int n_ in
    m1 ← sub64 m 1;
    p1 ← mul64 m m1;
    m2 ← sub64 m 2;
    p2 ← mul64 p1 m2;
    m3 ← sub64 m 3;
    p3 ← mul64 p2 m3;
    m4 ← sub64 m 4;
    p4 ← mul64 p3 m4;
    div64 p4 120.

Definition kBinom6 : list Z := [1; 6; 15; 20; 15; 6; 1].

(** The loop of [ways_for_sum]; [ks] holds the values the counter [k] still
    has to take, [result] ([int64_t]) and [sign] ([int]) are the two locals.
    [arg] is computed in [int]; in [sign * kBinom6[k] * binomial_n_5(arg)]
    the [int] [sign] is converted and both products are in [int64_t]. *)
Fixpoint ways_for_sum_loop (ks : list Z) (sum_ result sign : Z) : M Z :=
  match ks with
  | [] => mret result
  | k :: ks' =>
      t ← mul32 kBase k;
      d ← sub32 sum_ t;
      arg ← add32 d 5;
      if arg <? 5 then mret result
      else
        c ← array_get kBinom6 k;
        sc ← mul64 (int64_of_int sign) c;
        b ← binomial_n_5 arg;
        term ← mul64 sc b;
        result' ← add64 result term;
        sign' ← neg32 sign;
        ways_for_sum_loop ks' sum_ result' sign'
  end.

Definition ways_for_sum (sum_ : Z) : M Z :=
  ways_for_sum_loop (seqZ 0 (kDigits + 1)) sum_ 0 1.

(** The loop of [build_ways_lookup_table] over the local [table]. *)
Fixpoint build_loop (ss : list Z) (table : list Z) : M (list Z) :=
  match ss with
  | [] => mret table
  | s :: ss' =>
      v ← ways_for_sum s;
      table' ← array_set table s v;
      build_loop ss' table'
  end.

(** [table{}] starts as [kMaxSum + 1] zeros. *)
Definition build_ways_lookup_table : M (list Z) :=
  build_loop (seqZ 0 (kMaxSum + 1)) (replicate (Z.to_nat (kMaxSum + 1)) 0).

(** The constant [kWays] is the table the finished build returns. *)
Definition kWays : list Z := value build_ways_lookup_table.

(** The loop of [count_beautiful_numbers]:
    [total += kBase * kWays[s] * kWays[s]]. *)
Fixpoint count_loop (ss : list Z) (total : Z) : M Z :=
  match ss with
  | [] => mret total
  | s :: ss' =>
      w1 ← array_get kWays s;
      p ← mul64 (int64_of_int kBase) w1;
      w2 ← array_get kWays s;
      q ← mul64 p w2;
      total' ← add64 total q;
      count_loop ss' total'
  end.

Definition count_beautiful_numbers : M Z :=
  count_loop (seqZ 0 (kMaxSum + 1)) 0.

(** ** The mathematical side *)

(** The binomial coefficient, by Pascal's rule. *)
Fixpoint choose (n k : nat) : Z :=
  match n, k with
  | _, O => 1
  | O, S _ => 0
  | S n', S k' => choose n' k' + choose n' k
  end.

(** [C(n,5)] for an integer [n], zero below zero. *)
Definition choose5 (n : Z) : Z := choose (Z.to_nat n) 5.

(** The product of the five consecutive integers ending in [n]. *)
Definition falling5 (n : Z) : Z := n * (n - 1) * (n - 2) * (n - 3) * (n - 4).

(** Sum of [f] over the elements of a list. *)
Definition sumZ (f : Z → Z) (l : list Z) : Z := foldr (λ x acc, f x + acc) 0 l.

(** Equality test on evaluation results. *)
Definition M_eqb (a b : M Z) : bool :=
  (value a =? value b) && Bool.eqb (ub a) (ub b).

(** The inclusion-exclusion formula as the specification words it, with all
    seven terms and over the integers:
    [N(S) = Σ_{k=0..6} (-1)^k * C(6,k) * binomial_n_5 (S - 13k + 5)]. *)
Definition inclusion_exclusion (S : Z) : Z :=
  sumZ (λ k, (-1) ^ k * choose 6 (Z.to_nat k)
             * value (binomial_n_5 (S - 13 * k + 5)))
       (seqZ 0 7).

(** The loop of [ways_for_sum] without its early exit: all seven terms are
    evaluated, as the specification allows an implementation to do. *)
Fixpoint ways_for_sum_all_terms_loop (ks : list Z) (sum_ result sign : Z) : M Z :=
  match ks with
  | [] => mret result
  | k :: ks' =>
      t ← mul32 kBase k;
      d ← sub32 sum_ t;
      arg ← add32 d 5;
      c ← array_get kBinom6 k;
      sc ← mul64 (int64_of_int sign) c;
      b ← binomial_n_5 arg;
      term ← mul64 sc b;
      result' ← add64 result term;
      sign' ← neg32 sign;
      ways_for_sum_all_terms_loop ks' sum_ result' sign'
  end.

Definition ways_for_sum_all_terms (sum_ : Z) : M Z :=
  ways_for_sum_all_terms_loop (seqZ 0 (kDigits + 1)) sum_ 0 1.

(** [ways S] is the value [ways_for_sum] computes, [term S] the summand the
    final loop adds for the half-sum [S]. *)
Definition ways (S : Z) : Z := value (ways_for_sum S).
Definition term (S : Z) : Z := 13 * ways S ^ 2.

(** The largest argument of [binomial_n_5] whose five-fold product still
    fits [int64_t], and the largest half-sum whose first term does. *)
Definition binomial_n_5_max : Z := 6210.
Definition ways_for_sum_max : Z := binomial_n_5_max - 5.

(** The test run over the whole range of half-sums. *)
Definition ways_for_sum_check (S : Z) : bool :=
  let v := inclusion_exclusion S in
  M_eqb (ways_for_sum S) (mret v) && (0 <=? v).

(** ** Digit sequences

    The header of the source defines what is counted: [N(S)] is the number
    of sequences of six base-13 digits with sum [S], and a beautiful number
    is a sequence of 13 such digits whose first six and last six digits have
    the same sum.  These are the definitions the code is compared with. *)

(** The digits of base 13. *)
Definition digits : list Z := seqZ 0 kBase.

(** All sequences of [d] digits. *)
Fixpoint digit_seqs (d : nat) : list (list Z) :=
  match d with
  | O => [[]]
  | S d' => digits ≫= λ x, cons x <$> digit_seqs d'
  end.

Definition digit_sum (l : list Z) : Z := foldr Z.add 0 l.

(** Sum of [f] over a list of any type, and the number of elements that
    pass a test. *)
Definition sum_of {A} (f : A → Z) (l : list A) : Z :=
  foldr (λ x acc, f x + acc) 0 l.

Definition count_if {A} (p : A → bool) (l : list A) : Z :=
  sum_of (λ x, if p x then 1 else 0) l.

(** The number of sequences of [d] digits with sum [s]. *)
Definition count_with_sum (d : nat) (s : Z) : Z :=
  count_if (λ l, bool_decide (digit_sum l = s)) (digit_seqs d).

(** First six digits against last six digits; the seventh is free. *)
Definition beautiful (l : list Z) : bool :=
  bool_decide (digit_sum (take 6 l) = digit_sum (drop 7 l)).

(** The counts for [d] digits as a row indexed by the sum, computed digit
    by digit: each entry of the next row adds up the thirteen entries of
    the row before that one more digit can start from. *)
Definition row_get (r : list Z) (s : Z) : Z :=
  if s <? 0 then 0 else default 0 (r !! Z.to_nat s).

Definition row_step (r : list Z) : list Z :=
  (λ s, sum_of (λ x, row_get r (s - x)) digits)
    <$> seqZ 0 (Z.of_nat (length r) + (kBase - 1)).

Fixpoint count_row (d : nat) : list Z :=
  match d with
  | O => [1]
  | S d' => row_step (count_row d')
  end.


(** * Properties *)

(** ** The monad *)

Section Monad.
Context {A B : Type}.

Lemma bind_ret (x : A) (f : A → M B) : mret x ≫= f = f x.
Proof. unfold mret, M_ret, mbind, M_bind. simpl. by destruct (f x). Qed.

Lemma bind_run (m : M A) (f : A → M B) (x : A) :
  m = mret x → m ≫= f = f x.
Proof. intros ->. apply bind_ret. Qed.

Lemma ub_bind (m : M A) (f : A → M B) :
  ub (m ≫= f) = ub m || ub (f (value m)).
Proof. reflexivity. Qed.

Lemma value_bind (m : M A) (f : A → M B) :
  value (m ≫= f) = value (f (value m)).
Proof. reflexivity. Qed.

Lemma ub_bind_true (m : M A) (f : A → M B) : ub m = true → ub (m ≫= f) = true.
Proof. intros H. by rewrite ub_bind, H. Qed.
End Monad.

Lemma M_eqb_eq (a b : M Z) : M_eqb a b = true → a = b.
Proof.
  destruct a as [va ua], b as [vb ub0]. unfold M_eqb. simpl.
  intros [Hv Hu]%andb_true_iff.
  apply Z.eqb_eq in Hv. apply Bool.eqb_prop in Hu. congruence.
Qed.

(** ** Machine arithmetic inside its range *)

Lemma half_pow (w : Int.width) : Int.half w = 2 ^ (Int.bits w - 1).
Proof. by destruct w. Qed.

Lemma in_range_iff (w : Int.width) (z : Z) :
  Int.in_range w z = true ↔ Int.min_signed w ≤ z ≤ Int.max_signed w.
Proof. unfold Int.in_range. rewrite andb_true_iff, !Z.leb_le. tauto. Qed.

Lemma wrap_in_range (w : Int.width) (z : Z) :
  Int.in_range w z = true → Int.wrap w z = z.
Proof.
  intros [Hlo Hhi]%in_range_iff.
  unfold Int.wrap, Int.min_signed, Int.max_signed in *.
  rewrite Z.mod_small; lia.
Qed.

Lemma wrap_range (w : Int.width) (z : Z) :
  Int.in_range w (Int.wrap w z) = true.
Proof.
  apply in_range_iff. unfold Int.wrap, Int.min_signed, Int.max_signed.
  assert (0 < Int.half w) by (by destruct w).
  pose proof (Z.mod_pos_bound (z + Int.half w) (2 * Int.half w)). lia.
Qed.

Lemma arith_in_range (w : Int.width) (z : Z) :
  Int.in_range w z = true → Int.arith w z = mret z.
Proof. intros Hr. unfold Int.arith. by rewrite Hr. Qed.

Lemma arith_ub (w : Int.width) (z : Z) :
  ub (Int.arith w z) = negb (Int.in_range w z).
Proof. unfold Int.arith. by destruct (Int.in_range w z). Qed.

Lemma arith_value (w : Int.width) (z : Z) :
  value (Int.arith w z) = Int.wrap w z.
Proof.
  unfold Int.arith. destruct (Int.in_range w z) eqn:E; [|done].
  by rewrite wrap_in_range.
Qed.

Lemma range64 (z : Z) :
  - 9223372036854775808 ≤ z ≤ 9223372036854775807 → Int.in_range W64 z = true.
Proof. intros H. apply in_range_iff. exact H. Qed.

Lemma range32 (z : Z) :
  - 2147483648 ≤ z ≤ 2147483647 → Int.in_range W32 z = true.
Proof. intros H. apply in_range_iff. exact H. Qed.

Lemma arith64 (z : Z) :
  - 9223372036854775808 ≤ z ≤ 9223372036854775807 → Int.arith W64 z = mret z.
Proof. intros H. by apply arith_in_range, range64. Qed.

Lemma arith32 (z : Z) :
  - 2147483648 ≤ z ≤ 2147483647 → Int.arith W32 z = mret z.
Proof. intros H. by apply arith_in_range, range32. Qed.

(** ** Enumeration over an integer interval *)

Lemma forallb_seqZ (f : Z → bool) (m n : Z) :
  forallb f (seqZ m n) = true → ∀ z, m ≤ z < m + n → f z = true.
Proof.
  intros H z Hz. rewrite forallb_forall in H. apply H.
  apply list_elem_of_In, elem_of_seqZ. exact Hz.
Qed.

(** ** Pascal's rule against the closed forms *)

Lemma choose_0 (n : nat) : choose n 0 = 1.
Proof. by destruct n. Qed.

Lemma choose_1 (n : nat) : choose n 1 = Z.of_nat n.
Proof.
  induction n as [|n IH]; [done|].
  cbn [choose]. rewrite choose_0, IH. lia.
Qed.

Lemma choose_2 (n : nat) :
  2 * choose n 2 = Z.of_nat n * (Z.of_nat n - 1).
Proof.
  induction n as [|n IH]; [done|].
  cbn [choose]. rewrite Z.mul_add_distr_l, IH, choose_1. lia.
Qed.

Lemma choose_3 (n : nat) :
  6 * choose n 3 = Z.of_nat n * (Z.of_nat n - 1) * (Z.of_nat n - 2).
Proof.
  induction n as [|n IH]; [done|].
  cbn [choose].
  transitivity (3 * (2 * choose n 2) + 6 * choose n 3); [ring|].
  rewrite IH, choose_2, Nat2Z.inj_succ. ring.
Qed.

Lemma choose_4 (n : nat) :
  24 * choose n 4 =
  Z.of_nat n * (Z.of_nat n - 1) * (Z.of_nat n - 2) * (Z.of_nat n - 3).
Proof.
  induction n as [|n IH]; [done|].
  cbn [choose].
  transitivity (4 * (6 * choose n 3) + 24 * choose n 4); [ring|].
  rewrite IH, choose_3, Nat2Z.inj_succ. ring.
Qed.

Lemma choose_5 (n : nat) : 120 * choose n 5 = falling5 (Z.of_nat n).
Proof.
  unfold falling5. induction n as [|n IH]; [done|].
  cbn [choose].
  transitivity (5 * (24 * choose n 4) + 120 * choose n 5); [ring|].
  rewrite IH, choose_4, Nat2Z.inj_succ. ring.
Qed.

Lemma choose5_falling5 (n : Z) : 0 ≤ n → 120 * choose5 n = falling5 n.
Proof.
  intros Hn. unfold choose5. rewrite choose_5, Z2Nat.id; [done | lia].
Qed.

Lemma choose5_div (n : Z) : 0 ≤ n → falling5 n / 120 = choose5 n.
Proof.
  intros Hn. rewrite <- choose5_falling5 by done.
  rewrite Z.mul_comm. apply Z.div_mul. lia.
Qed.

Lemma choose_nonneg (n k : nat) : 0 ≤ choose n k.
Proof.
  revert k. induction n as [|n IH]; intros [|k]; cbn [choose]; try lia.
  specialize (IH k) as H1. specialize (IH (S k)) as H2. lia.
Qed.

(** ** [binomial_n_5] *)

Lemma falling5_max_fits :
  falling5 binomial_n_5_max ≤ Int.max_signed W64 < falling5 (binomial_n_5_max + 1).
Proof. vm_compute. split; [discriminate | reflexivity]. Qed.

Lemma binomial_n_5_below (n : Z) : n < 5 → binomial_n_5 n = mret 0.
Proof.
  intros Hn. unfold binomial_n_5.
  destruct (Z.ltb_spec n 5); [done | lia].
Qed.

(** Every prefix of the product is non-negative and bounded by the full
    product at [binomial_n_5_max]. *)
Lemma falling_prefix_bounds (n : Z) :
  5 ≤ n ≤ binomial_n_5_max →
  0 ≤ n * (n - 1) ≤ 38557890 ∧
  0 ≤ n * (n - 1) * (n - 2) ≤ 239367381120 ∧
  0 ≤ n * (n - 1) * (n - 2) * (n - 3) ≤ 1485753334611840 ∧
  0 ≤ falling5 n ≤ 9220585194601079040.
Proof.
  unfold binomial_n_5_max, falling5. intros Hn.
  assert (H2 : 0 ≤ n * (n - 1) ≤ 38557890) by nia.
  assert (H3 : 0 ≤ n * (n - 1) * (n - 2) ≤ 239367381120) by nia.
  assert (H4 : 0 ≤ n * (n - 1) * (n - 2) * (n - 3) ≤ 1485753334611840) by nia.
  assert (H5 : 0 ≤ n * (n - 1) * (n - 2) * (n - 3) * (n - 4)
               ≤ 9220585194601079040) by nia.
  auto.
Qed.

Lemma binomial_n_5_exact (n : Z) :
  5 ≤ n ≤ binomial_n_5_max → binomial_n_5 n = mret (falling5 n / 120).
Proof.
  intros Hn. destruct (falling_prefix_bounds n Hn) as (H2 & H3 & H4 & H5).
  unfold binomial_n_5_max, falling5 in *.
  unfold binomial_n_5, int64_of_int, sub64, mul64, div64.
  destruct (Z.ltb_spec n 5); [lia|].
  rewrite (arith64 (n - 1)), bind_ret by lia.
  rewrite (arith64 (n * (n - 1))), bind_ret by lia.
  rewrite (arith64 (n - 2)), bind_ret by lia.
  rewrite (arith64 (n * (n - 1) * (n - 2))), bind_ret by lia.
  rewrite (arith64 (n - 3)), bind_ret by lia.
  rewrite (arith64 (n * (n - 1) * (n - 2) * (n - 3))), bind_ret by lia.
  rewrite (arith64 (n - 4)), bind_ret by lia.
  rewrite (arith64 (n * (n - 1) * (n - 2) * (n - 3) * (n - 4))), bind_ret by lia.
  cbn [Z.eqb].
  rewrite Z.quot_div_nonneg by lia.
  apply arith64.
  assert (0 ≤ n * (n - 1) * (n - 2) * (n - 3) * (n - 4) / 120
          ≤ n * (n - 1) * (n - 2) * (n - 3) * (n - 4)); [|lia].
  split; [apply Z.div_pos; lia | apply Z.div_le_upper_bound; lia].
Qed.

Lemma binomial_n_5_choose5 (n : Z) :
  n ≤ binomial_n_5_max → binomial_n_5 n = mret (choose5 n).
Proof.
  intros Hn. destruct (Z.lt_ge_cases n 5) as [Hlt | Hge].
  - rewrite binomial_n_5_below by done. f_equal. unfold choose5.
    destruct (Z.to_nat n) as [|[|[|[|[|k]]]]] eqn:E; try reflexivity. lia.
  - rewrite binomial_n_5_exact, choose5_div by lia. done.
Qed.

Lemma ub_bind_false {A B} (m : M A) (f : A → M B) :
  ub (m ≫= f) = false → ub m = false ∧ ub (f (value m)) = false.
Proof. rewrite ub_bind. apply orb_false_elim. Qed.

Lemma arith_inv (w : Int.width) (z : Z) :
  ub (Int.arith w z) = false →
  Int.in_range w z = true ∧ value (Int.arith w z) = z.
Proof.
  unfold Int.arith. destruct (Int.in_range w z); [done | discriminate].
Qed.

(** Beyond [binomial_n_5_max] one of the four multiplications overflows. *)
Lemma binomial_n_5_beyond (n : Z) :
  binomial_n_5_max < n → ub (binomial_n_5 n) = true.
Proof.
  unfold binomial_n_5_max. intros Hn.
  destruct (ub (binomial_n_5 n)) eqn:E; [done | exfalso].
  unfold binomial_n_5, int64_of_int, sub64, mul64 in E.
  destruct (Z.ltb_spec n 5); [lia|].
  apply ub_bind_false in E as [[_ ->]%arith_inv E].
  apply ub_bind_false in E as [[_ ->]%arith_inv E].
  apply ub_bind_false in E as [[_ ->]%arith_inv E].
  apply ub_bind_false in E as [[_ ->]%arith_inv E].
  apply ub_bind_false in E as [[_ ->]%arith_inv E].
  apply ub_bind_false in E as [[_ ->]%arith_inv E].
  apply ub_bind_false in E as [[_ ->]%arith_inv E].
  apply ub_bind_false in E as [[[_ R]%in_range_iff _]%arith_inv _].
  change (Int.max_signed W64) with 9223372036854775807 in R.
  assert (H2 : 38570310 ≤ n * (n - 1)) by (clear R; nia).
  assert (H3 : 239483054790 ≤ n * (n - 1) * (n - 2)) by (clear R; nia).
  assert (H4 : 1486710804136320 ≤ n * (n - 1) * (n - 2) * (n - 3))
    by (clear R; nia).
  nia.
Qed.

(** ** [ways_for_sum] *)

Lemma kBinom6_choose (k : Z) :
  0 ≤ k ≤ 6 → kBinom6 !! Z.to_nat k = Some (choose 6 (Z.to_nat k)).
Proof.
  intros Hk.
  assert (Hc : forallb (λ k, bool_decide (kBinom6 !! Z.to_nat k
                                           = Some (choose 6 (Z.to_nat k))))
                       (seqZ 0 7) = true) by (vm_compute; reflexivity).
  eapply bool_decide_eq_true_1, (forallb_seqZ _ _ _ Hc). lia.
Qed.

Lemma ways_for_sum_negative (S : Z) :
  Int.min_signed W32 ≤ S < 0 → ways_for_sum S = mret 0.
Proof.
  intros [Hlo Hhi]. change (Int.min_signed W32) with (-2147483648) in Hlo.
  unfold ways_for_sum.
  change (seqZ 0 (kDigits + 1)) with (0 :: seqZ 1 6).
  cbn [ways_for_sum_loop]. unfold mul32, sub32, add32, kBase.
  rewrite (arith32 (13 * 0)), bind_ret by lia.
  rewrite (arith32 (S - 13 * 0)), bind_ret by lia.
  rewrite (arith32 (S - 13 * 0 + 5)), bind_ret by lia.
  destruct (Z.ltb_spec (S - 13 * 0 + 5) 5); [done | lia].
Qed.

Lemma ways_for_sum_checked :
  forallb ways_for_sum_check (seqZ 0 (kMaxSum + 1)) = true.
Proof. vm_compute. reflexivity. Qed.

Lemma ways_for_sum_in_range (S : Z) :
  0 ≤ S ≤ kMaxSum →
  ways_for_sum S = mret (inclusion_exclusion S) ∧ 0 ≤ inclusion_exclusion S.
Proof.
  intros HS.
  assert (Hc : ways_for_sum_check S = true).
  { apply (forallb_seqZ _ _ _ ways_for_sum_checked). lia. }
  apply andb_true_iff in Hc as [H1 H2].
  apply M_eqb_eq in H1. apply Z.leb_le in H2. done.
Qed.

Lemma ways_for_sum_above_checked :
  forallb (λ S, M_eqb (ways_for_sum S) (mret 0))
          (seqZ (kMaxSum + 1) (ways_for_sum_max - kMaxSum)) = true.
Proof. vm_compute. reflexivity. Qed.

Lemma ways_for_sum_above (S : Z) :
  kMaxSum < S ≤ ways_for_sum_max → ways_for_sum S = mret 0.
Proof.
  intros HS. apply M_eqb_eq.
  apply (forallb_seqZ _ _ _ ways_for_sum_above_checked). lia.
Qed.

(** Past [ways_for_sum_max] the very first term leaves [int64_t] (or, at the
    top of [int], the argument [sum_ + 5] leaves [int]). *)
Lemma ways_for_sum_beyond (S : Z) :
  ways_for_sum_max < S → ub (ways_for_sum S) = true.
Proof.
  unfold ways_for_sum_max, binomial_n_5_max. intros HS.
  unfold ways_for_sum.
  change (seqZ 0 (kDigits + 1)) with (0 :: seqZ 1 6).
  cbn [ways_for_sum_loop]. unfold mul32, sub32, add32, kBase.
  rewrite (arith32 (13 * 0)), bind_ret by lia.
  replace (S - 13 * 0) with S by lia.
  destruct (Int.in_range W32 S) eqn:ES.
  2: { apply ub_bind_true. by rewrite arith_ub, ES. }
  rewrite (arith_in_range _ _ ES), bind_ret.
  destruct (Int.in_range W32 (S + 5)) eqn:ES5.
  2: { apply ub_bind_true. by rewrite arith_ub, ES5. }
  rewrite (arith_in_range _ _ ES5), bind_ret.
  destruct (Z.ltb_spec (S + 5) 5); [lia|].
  change (array_get kBinom6 0) with (mret (M := M) 1). rewrite bind_ret.
  change (mul64 (int64_of_int 1) 1) with (mret (M := M) 1). rewrite bind_ret.
  rewrite ub_bind, binomial_n_5_beyond; [done|].
  unfold binomial_n_5_max. lia.
Qed.

(** ** The lookup table *)

Lemma array_set_in (a : list Z) (i v : Z) :
  0 ≤ i < Z.of_nat (length a) → array_set a i v = mret (<[Z.to_nat i := v]> a).
Proof.
  intros Hi. unfold array_set.
  destruct (Z.leb_spec 0 i), (Z.ltb_spec i (Z.of_nat (length a))); done || lia.
Qed.

Lemma array_get_in (a : list Z) (i v : Z) :
  0 ≤ i → a !! Z.to_nat i = Some v → array_get a i = mret v.
Proof.
  intros Hi Hv. unfold array_get. rewrite Hv.
  destruct (Z.ltb_spec i 0); done || lia.
Qed.

(** The filling loop: every index of [ss] receives its [ways_for_sum], the
    other cells and the size of the table are left alone. *)
Lemma build_loop_spec (ss : list Z) :
  ∀ table : list Z,
    NoDup ss →
    (∀ s, s ∈ ss → 0 ≤ s < Z.of_nat (length table) ∧ ub (ways_for_sum s) = false) →
    ∃ table' : list Z,
      build_loop ss table = mret table' ∧
      length table' = length table ∧
      (∀ s, s ∈ ss → table' !! Z.to_nat s = Some (value (ways_for_sum s))) ∧
      (∀ i : nat, (∀ s, s ∈ ss → Z.to_nat s ≠ i) → table' !! i = table !! i).
Proof.
  induction ss as [|s ss IH]; intros table Hnd Hss.
  - exists table. split_and!; [done | done | | done].
    intros s Hs. by apply elem_of_nil in Hs.
  - apply list.NoDup_cons in Hnd as [Hs Hnd].
    destruct (Hss s) as [Hr Hu]; [left|].
    cbn [build_loop].
    destruct (ways_for_sum s) as [v u] eqn:Ev. simpl in Hu. subst u.
    change (Run v false) with (mret (M := M) v). rewrite bind_ret.
    rewrite array_set_in, bind_ret by done.
    destruct (IH (<[Z.to_nat s := v]> table) Hnd) as (t' & Hb & Hl & Hin & Hout).
    { intros s' Hs'. rewrite length_insert. apply Hss. by right. }
    exists t'. rewrite length_insert in Hl. split_and!; [done | done | |].
    + intros s' [-> | Hs']%elem_of_cons.
      * rewrite Ev. simpl. rewrite Hout.
        -- apply list_lookup_insert_eq. lia.
        -- intros s' Hs' Heq.
           assert (s' = s); [|by subst].
           destruct (Hss s') as [? _]; [by right | lia].
      * by apply Hin.
    + intros i Hi. rewrite Hout.
      * apply list_lookup_insert_ne. apply Hi. left.
      * intros s' Hs'. apply Hi. by right.
Qed.

Lemma ways_for_sum_defined (S : Z) : 0 ≤ S ≤ kMaxSum → ub (ways_for_sum S) = false.
Proof. intros HS. by destruct (ways_for_sum_in_range S HS) as [-> _]. Qed.

Lemma build_ways_lookup_table_spec :
  build_ways_lookup_table = mret kWays ∧
  length kWays = 73%nat ∧
  ∀ S, 0 ≤ S ≤ kMaxSum → kWays !! Z.to_nat S = Some (value (ways_for_sum S)).
Proof.
  unfold kWays, build_ways_lookup_table.
  destruct (build_loop_spec (seqZ 0 (kMaxSum + 1))
              (replicate (Z.to_nat (kMaxSum + 1)) 0)) as (t & Hb & Hl & Hin & _).
  - apply NoDup_seqZ.
  - intros s Hs%elem_of_seqZ. rewrite length_replicate. split.
    + change (Z.of_nat (Z.to_nat (kMaxSum + 1))) with (kMaxSum + 1). lia.
    + apply ways_for_sum_defined. lia.
  - rewrite Hb. simpl. rewrite length_replicate in Hl. split_and!; [done | done |].
    intros S HS. apply Hin, elem_of_seqZ. lia.
Qed.

(** ** [count_beautiful_numbers] *)

Lemma sumZ_app (f : Z → Z) (l1 l2 : list Z) :
  sumZ f (l1 ++ l2) = sumZ f l1 + sumZ f l2.
Proof. induction l1 as [|x l1 IH]; simpl; lia. Qed.

Lemma sumZ_nonneg (f : Z → Z) (l : list Z) :
  Forall (λ x, 0 ≤ f x) l → 0 ≤ sumZ f l.
Proof. induction 1; simpl; lia. Qed.

Lemma ways_nonneg (S : Z) : 0 ≤ S ≤ kMaxSum → 0 ≤ ways S.
Proof.
  intros HS. unfold ways. by destruct (ways_for_sum_in_range S HS) as [-> ?].
Qed.

Lemma term_nonneg (S : Z) : 0 ≤ term S.
Proof. unfold term. nia. Qed.

Lemma kWays_get (S : Z) : 0 ≤ S ≤ kMaxSum → array_get kWays S = mret (ways S).
Proof.
  intros HS. apply array_get_in; [lia|].
  by apply build_ways_lookup_table_spec.
Qed.

(** The summing loop adds non-negative terms, so once the final total fits
    [int64_t] every product and every partial sum on the way does. *)
Lemma count_loop_spec (ss : list Z) :
  ∀ total : Z,
    Forall (λ s, 0 ≤ s ≤ kMaxSum) ss →
    0 ≤ total →
    total + sumZ term ss ≤ Int.max_signed W64 →
    count_loop ss total = mret (total + sumZ term ss).
Proof.
  induction ss as [|s ss IH]; intros total Hss Ht Hmax.
  - simpl. by rewrite Z.add_0_r.
  - apply Forall_cons_1 in Hss as [Hs Hss].
    pose proof (ways_nonneg s Hs) as HN.
    assert (Hrest : 0 ≤ sumZ term ss).
    { apply sumZ_nonneg, Forall_forall. intros; apply term_nonneg. }
    change (Int.max_signed W64) with 9223372036854775807 in Hmax.
    assert (Hterm : term s = 13 * ways s * ways s).
    { unfold term. rewrite Z.pow_2_r. ring. }
    simpl in Hmax. rewrite Hterm in Hmax.
    cbn [count_loop]. unfold int64_of_int, kBase, mul64, add64.
    rewrite kWays_get, bind_ret by done.
    rewrite (arith64 (13 * ways s)), !bind_ret by nia.
    rewrite (arith64 (13 * ways s * ways s)), bind_ret by nia.
    rewrite (arith64 (total + 13 * ways s * ways s)), bind_ret by nia.
    rewrite IH; [| done | nia |].
    2: change (Int.max_signed W64) with 9223372036854775807; lia.
    f_equal. simpl. lia.
Qed.

Lemma count_loop_prefix (n : Z) :
  0 ≤ n ≤ kMaxSum + 1 →
  count_loop (seqZ 0 n) 0 = mret (sumZ term (seqZ 0 n)) ∧
  0 ≤ sumZ term (seqZ 0 n) ≤ sumZ term (seqZ 0 (kMaxSum + 1)).
Proof.
  intros Hn.
  assert (Hsplit : sumZ term (seqZ 0 (kMaxSum + 1))
                   = sumZ term (seqZ 0 n) + sumZ term (seqZ (0 + n) (kMaxSum + 1 - n))).
  { rewrite <- sumZ_app, <- seqZ_app by lia. f_equal. f_equal. lia. }
  assert (Hnn : ∀ l, 0 ≤ sumZ term l).
  { intros l. apply sumZ_nonneg, Forall_forall. intros; apply term_nonneg. }
  pose proof (Hnn (seqZ 0 n)). pose proof (Hnn (seqZ (0 + n) (kMaxSum + 1 - n))).
  assert (Htot : sumZ term (seqZ 0 (kMaxSum + 1)) = 9203637295151)
    by (vm_compute; reflexivity).
  split; [|lia].
  rewrite count_loop_spec; [done | | done |].
  - apply Forall_seqZ. lia.
  - change (Int.max_signed W64) with 9223372036854775807. lia.
Qed.

Lemma sumZ_fmap (f g : Z → Z) (l : list Z) :
  sumZ f (g <$> l) = sumZ (λ x, f (g x)) l.
Proof.
  induction l as [|x l IH]; [done|].
  cbn [fmap list_fmap sumZ foldr]. unfold sumZ in IH. by rewrite IH.
Qed.

Lemma kWays_fmap : kWays = ways <$> seqZ 0 (kMaxSum + 1).
Proof.
  destruct build_ways_lookup_table_spec as (_ & Hlen & Hget).
  assert (Hmax : kMaxSum = 72) by done.
  apply list_eq. intros i. rewrite list_lookup_fmap.
  destruct (decide (i < 73)%nat) as [Hi | Hi].
  - rewrite lookup_seqZ_lt by lia. cbn [fmap option_fmap option_map].
    rewrite <- (Nat2Z.id i) at 1. apply Hget. lia.
  - rewrite lookup_seqZ_ge by lia. apply lookup_ge_None. lia.
Qed.

(** * The claims *)

(** C1. [count_beautiful_numbers ()] returns exactly the sum over [S] from 0
    to 72 of [13 * N(S)^2], [N(S)] being what [ways_for_sum S] computes; the
    sum has the two end terms [S = 0] and [S = 72], and it is the same as the
    sum of [13 * w^2] over the entries [w] of [kWays]. *)
Theorem count_beautiful_numbers_sum :
  count_beautiful_numbers
    = mret (sumZ (λ S, 13 * value (ways_for_sum S) ^ 2) (seqZ 0 73)) ∧
  sumZ (λ S, 13 * value (ways_for_sum S) ^ 2) (seqZ 0 73)
    = 13 * value (ways_for_sum 0) ^ 2
      + sumZ (λ S, 13 * value (ways_for_sum S) ^ 2) (seqZ 1 71)
      + 13 * value (ways_for_sum 72) ^ 2 ∧
  count_beautiful_numbers = mret (sumZ (λ w, 13 * w ^ 2) kWays).
Proof.
  assert (H : count_beautiful_numbers = mret (sumZ term (seqZ 0 73))).
  { apply (count_loop_prefix (kMaxSum + 1)). by vm_compute. }
  split_and!.
  - exact H.
  - assert (Hs : seqZ 0 73 = [0] ++ seqZ 1 71 ++ [72]) by (by vm_compute).
    rewrite Hs at 1. rewrite !sumZ_app. unfold sumZ at 1 3. cbn [foldr]. lia.
  - by rewrite H, kWays_fmap, sumZ_fmap.
Qed.

(** C2. For every [S] in [0,72] the loop of [ways_for_sum], which leaves as
    soon as [S - 13k + 5 < 5], returns the full seven-term sum
    [Σ_{k=0..6} (-1)^k * C(6,k) * binomial_n_5 (S - 13k + 5)], and the same
    result as the loop that never leaves early; all seven calls of
    [binomial_n_5] are defined, and every term from the exit on is zero. *)
Theorem ways_for_sum_inclusion_exclusion (S : Z) :
  0 ≤ S ≤ 72 →
  ways_for_sum S = mret (inclusion_exclusion S) ∧
  ways_for_sum S = ways_for_sum_all_terms S ∧
  (∀ k, 0 ≤ k ≤ 6 → ub (binomial_n_5 (S - 13 * k + 5)) = false) ∧
  ∀ k k', 0 ≤ k ≤ k' → S - 13 * k + 5 < 5 →
    binomial_n_5 (S - 13 * k' + 5) = mret 0 ∧
    (-1) ^ k' * choose 6 (Z.to_nat k')
      * value (binomial_n_5 (S - 13 * k' + 5)) = 0.
Proof.
  intros HS. split_and!.
  - apply ways_for_sum_in_range. unfold kMaxSum, kBase, kDigits. lia.
  - apply M_eqb_eq.
    assert (Hc : forallb (λ S, M_eqb (ways_for_sum S) (ways_for_sum_all_terms S))
                         (seqZ 0 73) = true) by (vm_compute; reflexivity).
    apply (forallb_seqZ _ _ _ Hc). lia.
  - intros k Hk. rewrite binomial_n_5_choose5; [done|].
    unfold binomial_n_5_max. lia.
  - intros k k' Hk Harg. rewrite binomial_n_5_below by lia.
    split; [done | apply Z.mul_0_r].
Qed.

Lemma ways_for_sum_inclusion_exclusion_witness :
  0 ≤ 40 ≤ 72 ∧
  ways_for_sum 40 = mret (inclusion_exclusion 40) ∧
  0 ≤ 4 ≤ 5 ∧ 40 - 13 * 4 + 5 < 5 ∧
  binomial_n_5 (40 - 13 * 5 + 5) = mret 0.
Proof.
  assert (H : 0 ≤ 40 ≤ 72) by lia.
  destruct (ways_for_sum_inclusion_exclusion 40 H) as (H1 & _ & _ & H2).
  assert (Hk : 0 ≤ 4 ≤ 5) by lia.
  assert (Ha : 40 - 13 * 4 + 5 < 5) by lia.
  destruct (H2 4 5 Hk Ha) as [H3 _].
  exact (conj H (conj H1 (conj Hk (conj Ha H3)))).
Defined.

(** C3. The table holds [ways_for_sum S] at every index [S] in [0,72]: it is
    what the finished [build_ways_lookup_table] returns, it has 73 entries,
    and every read of it inside the range yields that value. *)
Theorem kWays_invariant (S : Z) :
  0 ≤ S ≤ 72 →
  build_ways_lookup_table = mret kWays ∧
  length kWays = 73%nat ∧
  kWays !! Z.to_nat S = Some (value (ways_for_sum S)) ∧
  array_get kWays S = ways_for_sum S.
Proof.
  intros HS.
  assert (HS' : 0 ≤ S ≤ kMaxSum) by (unfold kMaxSum, kBase, kDigits; lia).
  destruct build_ways_lookup_table_spec as (Hb & Hlen & Hget).
  split_and!; [done | done | by apply Hget |].
  rewrite kWays_get by done. unfold ways.
  by destruct (ways_for_sum_in_range S HS') as [-> _].
Qed.

Lemma kWays_invariant_witness :
  0 ≤ 36 ≤ 72 ∧ kWays !! Z.to_nat 36 = Some (value (ways_for_sum 36)).
Proof.
  assert (H : 0 ≤ 36 ≤ 72) by lia.
  exact (conj H (proj1 (proj2 (proj2 (kWays_invariant 36 H))))).
Defined.

(** C4. [ways_for_sum S = ways_for_sum (72 - S)] for every [S] in [0,72]. *)
Theorem ways_for_sum_symmetric (S : Z) :
  0 ≤ S ≤ 72 → ways_for_sum S = ways_for_sum (72 - S).
Proof.
  intros HS. apply M_eqb_eq.
  assert (Hc : forallb (λ S, M_eqb (ways_for_sum S) (ways_for_sum (72 - S)))
                       (seqZ 0 73) = true) by (vm_compute; reflexivity).
  apply (forallb_seqZ _ _ _ Hc). lia.
Qed.

Lemma ways_for_sum_symmetric_witness :
  0 ≤ 10 ≤ 72 ∧ ways_for_sum 10 = ways_for_sum (72 - 10).
Proof.
  assert (H : 0 ≤ 10 ≤ 72) by lia.
  exact (conj H (ways_for_sum_symmetric 10 H)).
Defined.

(** C5. The values of [ways_for_sum S] for [S] from 0 to 72 add up to
    [13^6 = 4826809], and each of them is computed without overflow. *)
Theorem ways_for_sum_total :
  sumZ (λ S, value (ways_for_sum S)) (seqZ 0 73) = 13 ^ 6 ∧
  13 ^ 6 = 4826809 ∧
  Forall (λ S, ub (ways_for_sum S) = false) (seqZ 0 73).
Proof.
  split_and!; [by vm_compute | by vm_compute |].
  apply Forall_seqZ. intros S HS. apply ways_for_sum_defined.
  unfold kMaxSum, kBase, kDigits. lia.
Qed.

(** C8. [ways_for_sum 0 = 1] and [ways_for_sum 72 = 1]. *)
Theorem ways_for_sum_boundary :
  ways_for_sum 0 = mret 1 ∧ ways_for_sum 72 = mret 1.
Proof. split; by vm_compute. Qed.

(** C6 (amended). [binomial_n_5] returns 0 for every [n < 5], negative ones
    included, and for every [n] from 5 to 6210 it returns
    [n*(n-1)*(n-2)*(n-3)*(n-4)/120 = C(n,5)]; 6210 is the last argument
    whose product fits [int64_t], every larger one overflows. *)
Theorem binomial_n_5_contract (n : Z) :
  (n < 5 → binomial_n_5 n = mret 0) ∧
  (5 ≤ n ≤ 6210 →
     binomial_n_5 n = mret (n * (n - 1) * (n - 2) * (n - 3) * (n - 4) / 120) ∧
     n * (n - 1) * (n - 2) * (n - 3) * (n - 4) / 120 = choose5 n) ∧
  (6210 < n → ub (binomial_n_5 n) = true).
Proof.
  split_and!.
  - apply binomial_n_5_below.
  - intros Hn. split.
    + by apply binomial_n_5_exact.
    + apply choose5_div. lia.
  - apply binomial_n_5_beyond.
Qed.

Lemma binomial_n_5_contract_witness :
  (-3 < 5 ∧ binomial_n_5 (-3) = mret 0) ∧
  (5 ≤ 7 ≤ 6210 ∧ binomial_n_5 7 = mret (7 * (7 - 1) * (7 - 2) * (7 - 3) * (7 - 4) / 120)) ∧
  (6210 < 6211 ∧ ub (binomial_n_5 6211) = true).
Proof.
  assert (H1 : -3 < 5) by lia.
  assert (H2 : 5 ≤ 7 ≤ 6210) by lia.
  assert (H3 : 6210 < 6211) by lia.
  exact (conj (conj H1 (proj1 (binomial_n_5_contract (-3)) H1))
        (conj (conj H2 (proj1 (proj1 (proj2 (binomial_n_5_contract 7)) H2)))
              (conj H3 (proj2 (proj2 (binomial_n_5_contract 6211)) H3)))).
Defined.

(** C6 as stated fails: 6211 is an [int] not below 5, the product
    [6211*6210*6209*6208*6207] exceeds [2^63 - 1], the evaluation is
    undefined, and the wrapped result is not [C(6211,5)]. *)
Lemma binomial_n_5_not_total :
  5 ≤ 6211 ∧ Int.in_range W32 6211 = true ∧
  Int.max_signed W64 < 6211 * 6210 * 6209 * 6208 * 6207 ∧
  binomial_n_5 6211 = undefined (-76822750936961778) ∧
  binomial_n_5 6211 ≠ mret (6211 * 6210 * 6209 * 6208 * 6207 / 120) ∧
  value (binomial_n_5 6211) ≠ choose5 6211.
Proof.
  split_and!; [lia | by vm_compute | by vm_compute | by vm_compute
              | by vm_compute |].
  rewrite <- choose5_div by lia. by vm_compute.
Qed.

(** C7 (amended). [ways_for_sum S] is non-negative for every [S] in [0,72],
    and it is 0 for every negative [S] and for every [S] with
    [72 < S ≤ 6205]; past 6205 the evaluation overflows. *)
Theorem ways_for_sum_sign (S : Z) :
  Int.min_signed W32 ≤ S →
  (0 ≤ S ≤ 72 → ub (ways_for_sum S) = false ∧ 0 ≤ value (ways_for_sum S)) ∧
  (S < 0 → ways_for_sum S = mret 0) ∧
  (72 < S ≤ 6205 → ways_for_sum S = mret 0) ∧
  (6205 < S → ub (ways_for_sum S) = true).
Proof.
  intros Hmin. split_and!.
  - intros HS.
    destruct (ways_for_sum_in_range S) as [-> Hnn]; [|done].
    unfold kMaxSum, kBase, kDigits. lia.
  - intros HS. by apply ways_for_sum_negative.
  - intros HS. by apply ways_for_sum_above.
  - apply ways_for_sum_beyond.
Qed.

Lemma ways_for_sum_sign_witness :
  (Int.min_signed W32 ≤ 36 ∧ 0 ≤ 36 ≤ 72 ∧ 0 ≤ value (ways_for_sum 36)) ∧
  (Int.min_signed W32 ≤ -1 ∧ -1 < 0 ∧ ways_for_sum (-1) = mret 0) ∧
  (Int.min_signed W32 ≤ 100 ∧ 72 < 100 ≤ 6205 ∧ ways_for_sum 100 = mret 0) ∧
  (Int.min_signed W32 ≤ 6206 ∧ 6205 < 6206 ∧ ub (ways_for_sum 6206) = true).
Proof.
  assert (M1 : Int.min_signed W32 ≤ 36) by (by vm_compute).
  assert (M2 : Int.min_signed W32 ≤ -1) by (by vm_compute).
  assert (M3 : Int.min_signed W32 ≤ 100) by (by vm_compute).
  assert (M4 : Int.min_signed W32 ≤ 6206) by (by vm_compute).
  assert (H1 : 0 ≤ 36 ≤ 72) by lia.
  assert (H2 : -1 < 0) by lia.
  assert (H3 : 72 < 100 ≤ 6205) by lia.
  assert (H4 : 6205 < 6206) by lia.
  destruct (ways_for_sum_sign 36 M1) as (A1 & _).
  destruct (ways_for_sum_sign (-1) M2) as (_ & A2 & _).
  destruct (ways_for_sum_sign 100 M3) as (_ & _ & A3 & _).
  destruct (ways_for_sum_sign 6206 M4) as (_ & _ & _ & A4).
  exact (conj (conj M1 (conj H1 (proj2 (A1 H1))))
        (conj (conj M2 (conj H2 (A2 H2)))
        (conj (conj M3 (conj H3 (A3 H3)))
              (conj M4 (conj H4 (A4 H4)))))).
Defined.

(** C7 as stated fails: 6206 is an [int] above 72, the first term
    [C(6211,5)] of its sum overflows [int64_t], and the wrapped result is
    not 0. *)
Lemma ways_for_sum_not_zero_outside :
  72 < 6206 ∧ Int.in_range W32 6206 = true ∧
  ways_for_sum 6206 = undefined (-153722867280912930) ∧
  ways_for_sum 6206 ≠ mret 0.
Proof. split_and!; by vm_compute. Qed.

(** C9. All arithmetic stays inside signed 64 bits.  The arguments
    [binomial_n_5] receives during the table build are at most 77; for every
    such argument the product of the five factors fits [int64_t] and the
    result is the exact quotient.  Every [ways_for_sum S] of the table and
    the table itself are computed without overflow; every partial sum of the
    final loop is the exact sum of the terms [13 * kWays[S]^2] added so far
    and lies below [2^63], and so does the total that is returned. *)
Theorem arithmetic_within_int64 :
  (∀ S k, 0 ≤ S ≤ 72 → 0 ≤ k ≤ 6 → S - 13 * k + 5 ≤ 77) ∧
  (∀ n, n ≤ 77 →
     ub (binomial_n_5 n) = false ∧
     (5 ≤ n →
        Int.in_range W64 (n * (n - 1) * (n - 2) * (n - 3) * (n - 4)) = true ∧
        0 ≤ n * (n - 1) * (n - 2) * (n - 3) * (n - 4) ≤ 2370937800 ∧
        value (binomial_n_5 n)
          = n * (n - 1) * (n - 2) * (n - 3) * (n - 4) / 120)) ∧
  (∀ S, 0 ≤ S ≤ 72 →
     ub (ways_for_sum S) = false ∧
     value (ways_for_sum S) = inclusion_exclusion S) ∧
  ub build_ways_lookup_table = false ∧
  (∀ n, 0 ≤ n ≤ 73 →
     count_loop (seqZ 0 n) 0
       = mret (sumZ (λ S, 13 * value (ways_for_sum S) ^ 2) (seqZ 0 n)) ∧
     0 ≤ sumZ (λ S, 13 * value (ways_for_sum S) ^ 2) (seqZ 0 n) < 2 ^ 63) ∧
  count_beautiful_numbers = mret 9203637295151 ∧
  9203637295151 < 2 ^ 63.
Proof.
  assert (Hmax : kMaxSum = 72) by done.
  split_and!.
  - lia.
  - intros n Hn. split.
    + rewrite binomial_n_5_choose5; [done | unfold binomial_n_5_max; lia].
    + intros H5. rewrite binomial_n_5_exact by (unfold binomial_n_5_max; lia).
      assert (Hb : 0 ≤ n * (n - 1) * (n - 2) * (n - 3) * (n - 4) ≤ 2370937800).
      { assert (0 ≤ n * (n - 1) ≤ 5852) by nia.
        assert (0 ≤ n * (n - 1) * (n - 2) ≤ 438900) by nia.
        assert (0 ≤ n * (n - 1) * (n - 2) * (n - 3) ≤ 32478600) by nia.
        nia. }
      split; [apply range64; lia | split; [exact Hb | reflexivity]].
  - intros S HS. by destruct (ways_for_sum_in_range S) as [-> _]; [lia|].
  - by destruct build_ways_lookup_table_spec as [-> _].
  - intros n Hn.
    destruct (count_loop_prefix n) as (Hc & Hlo & Hhi); [lia|].
    split; [exact Hc|]. split; [exact Hlo|].
    eapply Z.le_lt_trans; [exact Hhi|]. by vm_compute.
  - unfold count_beautiful_numbers.
    destruct (count_loop_prefix (kMaxSum + 1)) as [-> _]; [lia|].
    by vm_compute.
  - done.
Qed.

Lemma arithmetic_within_int64_witness :
  (0 ≤ 72 ≤ 72 ∧ 0 ≤ 0 ≤ 6 ∧ 72 - 13 * 0 + 5 ≤ 77) ∧
  (77 ≤ 77 ∧ 5 ≤ 77 ∧ Int.in_range W64 (77 * (77 - 1) * (77 - 2) * (77 - 3) * (77 - 4)) = true) ∧
  (0 ≤ 36 ≤ 72 ∧ ub (ways_for_sum 36) = false) ∧
  (0 ≤ 50 ≤ 73 ∧
   0 ≤ sumZ (λ S, 13 * value (ways_for_sum S) ^ 2) (seqZ 0 50) < 2 ^ 63).
Proof.
  destruct arithmetic_within_int64 as (A1 & A2 & A3 & _ & A5 & _).
  assert (H1 : 0 ≤ 72 ≤ 72) by lia.
  assert (H2 : 0 ≤ 0 ≤ 6) by lia.
  assert (H3 : 77 ≤ 77) by lia.
  assert (H4 : 5 ≤ 77) by lia.
  assert (H5 : 0 ≤ 36 ≤ 72) by lia.
  assert (H6 : 0 ≤ 50 ≤ 73) by lia.
  exact (conj (conj H1 (conj H2 (A1 72 0 H1 H2)))
        (conj (conj H3 (conj H4 (proj1 (proj2 (A2 77 H3) H4))))
        (conj (conj H5 (proj1 (A3 36 H5)))
              (conj H6 (proj2 (A5 50 H6)))))).
Defined.

(** C10 (amended). The product of five consecutive integers ending in any
    [n ≥ 5] is divisible by 120; for every [n] from 5 to 6210, the range in which
    the product fits [int64_t], the division in [binomial_n_5] therefore
    leaves no remainder and the result is the binomial coefficient
    [C(n,5)]. *)
Theorem binomial_n_5_division_exact (n : Z) :
  5 ≤ n →
  (120 | n * (n - 1) * (n - 2) * (n - 3) * (n - 4)) ∧
  (n ≤ 6210 →
     binomial_n_5 n = mret (choose5 n) ∧
     120 * value (binomial_n_5 n) = n * (n - 1) * (n - 2) * (n - 3) * (n - 4) ∧
     (n * (n - 1) * (n - 2) * (n - 3) * (n - 4)) mod 120 = 0).
Proof.
  intros Hn.
  assert (Hc : 120 * choose5 n = n * (n - 1) * (n - 2) * (n - 3) * (n - 4)).
  { apply choose5_falling5. lia. }
  split.
  - exists (choose5 n). lia.
  - intros Hmax.
    rewrite binomial_n_5_choose5 by (unfold binomial_n_5_max; lia).
    split_and!; [done | exact Hc |].
    rewrite <- Hc, Z.mul_comm. apply Z.mod_mul. lia.
Qed.

Lemma binomial_n_5_division_exact_witness :
  5 ≤ 77 ∧ 77 ≤ 6210 ∧
  (120 | 77 * (77 - 1) * (77 - 2) * (77 - 3) * (77 - 4)) ∧
  binomial_n_5 77 = mret (choose5 77).
Proof.
  assert (H1 : 5 ≤ 77) by lia.
  assert (H2 : 77 ≤ 6210) by lia.
  destruct (binomial_n_5_division_exact 77 H1) as [D E].
  exact (conj H1 (conj H2 (conj D (proj1 (E H2))))).
Defined.

(** C10 as stated fails: at [n = 10000] the exact product is a multiple of
    120, but it does not fit [int64_t]; what reaches the division is the
    wrapped product, which leaves remainder 40, and the quotient is not
    [C(10000,5)]. *)
Lemma binomial_n_5_division_inexact :
  5 ≤ 10000 ∧ Int.in_range W32 10000 = true ∧
  (120 | 10000 * 9999 * 9998 * 9997 * 9996) ∧
  Int.in_range W64 (10000 * 9999 * 9998 * 9997 * 9996) = false ∧
  Int.wrap W64 (10000 * 9999 * 9998 * 9997 * 9996) mod 120 = 40 ∧
  binomial_n_5 10000
    = undefined (Int.wrap W64 (10000 * 9999 * 9998 * 9997 * 9996) ÷ 120) ∧
  value (binomial_n_5 10000) ≠ choose5 10000.
Proof.
  split_and!; [lia | by vm_compute | | by vm_compute | by vm_compute
              | by vm_compute |].
  - exists 832500291625002000. by vm_compute.
  - rewrite <- choose5_div by lia. by vm_compute.
Qed.

(** * Further properties *)

(** ** Sums and counts over lists *)

Section Sums.
Context {A : Type}.
Implicit Types (f g : A → Z) (l : list A).

Lemma sum_of_app f l1 l2 : sum_of f (l1 ++ l2) = sum_of f l1 + sum_of f l2.
Proof. induction l1 as [|x l1 IH]; simpl; lia. Qed.

Lemma sum_of_ext f g l : (∀ x, x ∈ l → f x = g x) → sum_of f l = sum_of g l.
Proof.
  induction l as [|x l IH]; intros H; [done|]. simpl.
  rewrite (H x), IH; [done | | left]. intros y Hy. apply H. by right.
Qed.

Lemma sum_of_add f g l : sum_of (λ x, f x + g x) l = sum_of f l + sum_of g l.
Proof. induction l as [|x l IH]; simpl; lia. Qed.

Lemma sum_of_zero l : sum_of (λ _, 0) l = 0.
Proof. induction l as [|x l IH]; simpl; lia. Qed.

Lemma sum_of_fmap {B} (h : B → A) f (k : list B) :
  sum_of f (h <$> k) = sum_of (λ y, f (h y)) k.
Proof. induction k as [|y k IH]; [done|]. cbn. unfold sum_of in IH. by rewrite IH. Qed.

Lemma sum_of_bind {B} (h : B → list A) f (k : list B) :
  sum_of f (k ≫= h) = sum_of (λ y, sum_of f (h y)) k.
Proof.
  induction k as [|y k IH]; [done|].
  rewrite bind_cons, sum_of_app, IH. done.
Qed.

Lemma count_if_filter (P : A → Prop) `{!∀ x, Decision (P x)} l :
  Z.of_nat (length (filter P l)) = count_if (λ x, bool_decide (P x)) l.
Proof.
  unfold count_if. induction l as [|x l IH]; [done|].
  rewrite filter_cons. cbn [sum_of foldr]. unfold sum_of in IH.
  destruct (decide (P x)) as [HP | HP].
  - rewrite bool_decide_eq_true_2 by done. cbn [length]. lia.
  - rewrite bool_decide_eq_false_2 by done. lia.
Qed.
End Sums.

(** Picking the one index [v] out of a sum over an interval. *)
Lemma sum_of_indicator (g : Z → Z) (v m n : Z) :
  m ≤ v < m + n →
  sum_of (λ s, (if bool_decide (v = s) then 1 else 0) * g s) (seqZ m n) = g v.
Proof.
  intros Hv.
  assert (Hz : ∀ a b, (v < a ∨ a + b ≤ v) →
     sum_of (λ s, (if bool_decide (v = s) then 1 else 0) * g s) (seqZ a b) = 0).
  { intros a b Hab.
    transitivity (sum_of (λ _ : Z, 0) (seqZ a b)); [|apply sum_of_zero].
    apply sum_of_ext. intros s Hs%elem_of_seqZ.
    by rewrite bool_decide_eq_false_2 by lia. }
  replace n with ((v - m) + (1 + (m + n - v - 1))) by lia.
  rewrite seqZ_app, sum_of_app by lia.
  rewrite seqZ_app, sum_of_app by lia.
  rewrite !Hz by lia.
  replace (m + (v - m)) with v by lia.
  rewrite seqZ_cons, seqZ_nil by lia. cbn [sum_of foldr].
  rewrite bool_decide_eq_true_2, Hz by lia. lia.
Qed.

(** Grouping a sum over [l] by the value of [h]. *)
Lemma sum_of_group {A} (h : A → Z) (g : Z → Z) (l : list A) (n : Z) :
  (∀ x, x ∈ l → 0 ≤ h x < n) →
  sum_of (λ x, g (h x)) l
  = sum_of (λ s, count_if (λ x, bool_decide (h x = s)) l * g s) (seqZ 0 n).
Proof.
  induction l as [|x l IH]; intros Hr.
  - simpl. symmetry.
    transitivity (sum_of (λ _ : Z, 0) (seqZ 0 n)); [|apply sum_of_zero].
    by apply sum_of_ext.
  - cbn [sum_of foldr]. unfold sum_of in IH. rewrite IH.
    2: { intros y Hy. apply Hr. by right. }
    rewrite <- (sum_of_indicator g (h x) 0 n) by (apply Hr; left).
    fold (sum_of (λ s, count_if (λ x0, bool_decide (h x0 = s)) l * g s) (seqZ 0 n)).
    rewrite <- sum_of_add. apply sum_of_ext. intros s _.
    unfold count_if, sum_of. cbn [foldr]. ring.
Qed.

(** ** The digit sequences *)

Lemma elem_of_digits (x : Z) : x ∈ digits ↔ 0 ≤ x ≤ 12.
Proof. unfold digits, kBase. rewrite elem_of_seqZ. lia. Qed.

Lemma elem_of_digit_seqs (d : nat) (l : list Z) :
  l ∈ digit_seqs d ↔ length l = d ∧ Forall (λ x, 0 ≤ x ≤ 12) l.
Proof.
  revert l. induction d as [|d IH]; intros l.
  - cbn [digit_seqs]. rewrite list_elem_of_singleton. split.
    + intros ->. done.
    + intros [Hl _]. by apply nil_length_inv.
  - cbn [digit_seqs]. rewrite list_elem_of_bind. split.
    + intros (x & Hl & Hx). apply list_elem_of_fmap in Hl as (l' & -> & Hl').
      apply IH in Hl' as [Hlen Hall]. apply elem_of_digits in Hx.
      split; [simpl; congruence | by constructor].
    + intros [Hlen Hall]. destruct l as [|x l]; [done|].
      apply Forall_cons_1 in Hall as [Hx Hall].
      exists x. split; [|by apply elem_of_digits].
      apply list_elem_of_fmap. exists l. split; [done|].
      apply IH. split; [by injection Hlen | done].
Qed.

Lemma NoDup_digit_seqs (d : nat) : NoDup (digit_seqs d).
Proof.
  induction d as [|d IH]; cbn [digit_seqs].
  - apply NoDup_singleton.
  - apply NoDup_bind.
    + intros x1 x2 l _ _ (l1 & -> & _)%list_elem_of_fmap (l2 & E & _)%list_elem_of_fmap.
      congruence.
    + intros x _. apply NoDup_fmap_2; [|done]. intros l1 l2 E. congruence.
    + apply NoDup_seqZ.
Qed.

Lemma digit_sum_bounds (l : list Z) :
  Forall (λ x, 0 ≤ x ≤ 12) l → 0 ≤ digit_sum l ≤ 12 * Z.of_nat (length l).
Proof. induction 1; cbn [digit_sum foldr length]; unfold digit_sum in *; lia. Qed.

(** Taking the first digit off. *)
Lemma sum_of_digit_seqs_S (f : list Z → Z) (d : nat) :
  sum_of f (digit_seqs (S d))
  = sum_of (λ x, sum_of (λ l, f (x :: l)) (digit_seqs d)) digits.
Proof.
  cbn [digit_seqs]. rewrite sum_of_bind. apply sum_of_ext. intros x _.
  apply sum_of_fmap.
Qed.

(** Cutting a sequence of [a + b] digits after the first [a]. *)
Lemma sum_of_digit_seqs_add (f : list Z → Z) (a b : nat) :
  sum_of f (digit_seqs (a + b))
  = sum_of (λ l1, sum_of (λ l2, f (l1 ++ l2)) (digit_seqs b)) (digit_seqs a).
Proof.
  revert f. induction a as [|a IH]; intros f.
  - cbn [Nat.add digit_seqs]. unfold sum_of at 2. cbn [foldr].
    by rewrite Z.add_0_r.
  - change (S a + b)%nat with (S (a + b)). rewrite !sum_of_digit_seqs_S.
    apply sum_of_ext. intros x _. apply IH.
Qed.

Lemma count_with_sum_S (d : nat) (s : Z) :
  count_with_sum (S d) s = sum_of (λ x, count_with_sum d (s - x)) digits.
Proof.
  unfold count_with_sum, count_if. rewrite sum_of_digit_seqs_S.
  apply sum_of_ext. intros x _. apply sum_of_ext. intros l _.
  cbn [digit_sum foldr]. fold (digit_sum l).
  destruct (decide (x + digit_sum l = s)) as [E | E].
  - rewrite !bool_decide_eq_true_2 by lia. done.
  - rewrite !bool_decide_eq_false_2 by lia. done.
Qed.

(** ** The rows of counts *)

Lemma row_get_step (r : list Z) (s : Z) :
  row_get (row_step r) s = sum_of (λ x, row_get r (s - x)) digits.
Proof.
  unfold row_get at 1, row_step.
  destruct (Z.ltb_spec s 0) as [Hs | Hs].
  - symmetry. transitivity (sum_of (λ _ : Z, 0) digits); [|apply sum_of_zero].
    apply sum_of_ext. intros x Hx%elem_of_digits. unfold row_get.
    destruct (Z.ltb_spec (s - x) 0); [done | lia].
  - rewrite list_lookup_fmap.
    destruct (decide (s < Z.of_nat (length r) + (kBase - 1))) as [Hlt | Hge].
    + rewrite lookup_seqZ_lt by lia. cbn. by rewrite Z2Nat.id by lia.
    + rewrite lookup_seqZ_ge by lia. cbn. symmetry.
      transitivity (sum_of (λ _ : Z, 0) digits); [|apply sum_of_zero].
      apply sum_of_ext. intros x Hx%elem_of_digits. unfold row_get.
      destruct (Z.ltb_spec (s - x) 0); [done|].
      rewrite lookup_ge_None_2; [done|]. unfold kBase in Hge. lia.
Qed.

Lemma count_row_correct (d : nat) (s : Z) :
  row_get (count_row d) s = count_with_sum d s.
Proof.
  revert s. induction d as [|d IH]; intros s.
  - unfold count_with_sum, count_if, row_get. cbn.
    destruct (Z.ltb_spec s 0) as [Hs | Hs].
    + rewrite bool_decide_eq_false_2 by lia. done.
    + destruct (decide (s = 0)) as [-> | Hne]; [done|].
      rewrite bool_decide_eq_false_2 by lia.
      destruct (Z.to_nat s) as [|k] eqn:E; [lia | done].
  - cbn [count_row]. rewrite row_get_step, count_with_sum_S.
    apply sum_of_ext. intros x _. apply IH.
Qed.

(** ** The code against the counts *)

Lemma mret_eq (a b : Z) : a = b → mret (M := M) a = mret b.
Proof. by intros ->. Qed.

Lemma count_row_kWays : count_row 6 = kWays.
Proof. by vm_compute. Qed.

Lemma ways_for_sum_count (s : Z) :
  Int.min_signed W32 ≤ s ≤ ways_for_sum_max →
  ways_for_sum s = mret (count_with_sum 6 s).
Proof.
  intros [Hlo Hhi]. rewrite <- count_row_correct, count_row_kWays.
  assert (Hmax : kMaxSum = 72) by done.
  destruct build_ways_lookup_table_spec as (_ & Hlen & Hget).
  unfold row_get.
  destruct (Z.ltb_spec s 0) as [Hneg | Hnn].
  - apply ways_for_sum_negative. lia.
  - destruct (decide (s ≤ kMaxSum)) as [Hin | Hout].
    + rewrite Hget by lia. cbn [default].
      by destruct (ways_for_sum_in_range s) as [-> _]; [lia|].
    + rewrite lookup_ge_None_2 by lia. cbn [default].
      apply ways_for_sum_above. lia.
Qed.

(** A duplicate-free list holding exactly the members of [l] that satisfy
    [P] has as many elements as [count_if] counts. *)
Lemma length_enumeration {A} (P : A → Prop) `{!∀ x, Decision (P x)}
    (l L : list A) :
  NoDup l → NoDup L → (∀ x, x ∈ L ↔ x ∈ l ∧ P x) →
  Z.of_nat (length L) = count_if (λ x, bool_decide (P x)) l.
Proof.
  intros Hl HL Hiff. rewrite <- count_if_filter. f_equal.
  apply Permutation_length, NoDup_Permutation; [done | by apply list.NoDup_filter |].
  intros x. rewrite Hiff, list_elem_of_filter. tauto.
Qed.

(** The beautiful numbers, counted half by half. *)
Lemma count_beautiful :
  count_if beautiful (digit_seqs 13)
  = sum_of (λ s, 13 * count_with_sum 6 s ^ 2) (seqZ 0 73).
Proof.
  unfold count_if. change 13%nat with (6 + 7)%nat.
  rewrite (sum_of_digit_seqs_add _ 6 7).
  transitivity (sum_of (λ l1, 13 * count_with_sum 6 (digit_sum l1)) (digit_seqs 6)).
  - apply sum_of_ext. intros l1 [Hlen _]%elem_of_digit_seqs.
    rewrite sum_of_digit_seqs_S.
    transitivity (sum_of (λ _ : Z, count_with_sum 6 (digit_sum l1)) digits).
    + apply sum_of_ext. intros m _. apply sum_of_ext. intros l2 _.
      unfold beautiful.
      rewrite take_app_length' by done.
      rewrite drop_app_ge, Hlen by lia. cbn [Nat.sub skipn].
      destruct (decide (digit_sum l1 = digit_sum l2)) as [E | E].
      * rewrite (bool_decide_eq_true_2 _ E).
        symmetry in E. by rewrite (bool_decide_eq_true_2 _ E).
      * rewrite (bool_decide_eq_false_2 _ E).
        assert (E' : digit_sum l2 ≠ digit_sum l1) by congruence.
        by rewrite (bool_decide_eq_false_2 _ E').
    + generalize (count_with_sum 6 (digit_sum l1)). intros c.
      unfold digits. rewrite (seqZ_cons 0) by done.
      do 12 (rewrite seqZ_cons by done). rewrite seqZ_nil by done.
      cbn [sum_of foldr]. lia.
  - rewrite (sum_of_group digit_sum (λ s, 13 * count_with_sum 6 s) _ 73).
    + apply sum_of_ext. intros s _. unfold count_with_sum. ring.
    + intros l [Hlen Hall]%elem_of_digit_seqs.
      apply digit_sum_bounds in Hall. lia.
Qed.

(** X1. [ways_for_sum s] is the number of sequences of six base-13 digits
    whose digits add up to [s]: any duplicate-free list of exactly these
    sequences has [ways_for_sum s] elements.  This holds on the whole range
    on which the function is defined, from the least [int] up to 6205. *)
Theorem ways_for_sum_counts_digit_sequences (s : Z) (L : list (list Z)) :
  Int.min_signed W32 ≤ s ≤ 6205 →
  NoDup L →
  (∀ l, l ∈ L ↔ length l = 6%nat ∧ Forall (λ x, 0 ≤ x ≤ 12) l ∧ digit_sum l = s) →
  ways_for_sum s = mret (Z.of_nat (length L)).
Proof.
  intros Hs HL Hiff. rewrite ways_for_sum_count by done. apply mret_eq.
  symmetry. apply (length_enumeration (λ l, digit_sum l = s)).
  - apply NoDup_digit_seqs.
  - exact HL.
  - intros l. rewrite Hiff, elem_of_digit_seqs. tauto.
Qed.

Lemma ways_for_sum_counts_digit_sequences_witness :
  ways_for_sum 0 = mret (Z.of_nat (length [[0; 0; 0; 0; 0; 0]])).
Proof.
  apply (ways_for_sum_counts_digit_sequences 0 [[0; 0; 0; 0; 0; 0]]).
  - by vm_compute.
  - apply NoDup_singleton.
  - intros l. rewrite list_elem_of_singleton. split.
    + intros ->. split_and!; [reflexivity | | reflexivity].
      repeat constructor; lia.
    + intros (Hlen & Hall & Hsum).
      destruct l as [|a [|b [|c [|d [|e [|f [|g l]]]]]]]; try discriminate Hlen.
      rewrite !list.Forall_cons in Hall. cbn in Hsum.
      repeat f_equal; lia.
Defined.

(** X2. [count_beautiful_numbers ()] is the number of beautiful numbers:
    the sequences of 13 base-13 digits whose first six digits and last six
    digits have the same sum.  [digit_seqs 13] lists every such sequence of
    13 digits exactly once. *)
Theorem count_beautiful_numbers_counts_beautiful :
  count_beautiful_numbers = mret (count_if beautiful (digit_seqs 13)) ∧
  NoDup (digit_seqs 13) ∧
  (∀ l, l ∈ digit_seqs 13 ↔ length l = 13%nat ∧ Forall (λ x, 0 ≤ x ≤ 12) l) ∧
  ∀ L : list (list Z),
    NoDup L →
    (∀ l, l ∈ L ↔ length l = 13%nat ∧ Forall (λ x, 0 ≤ x ≤ 12) l
                   ∧ digit_sum (take 6 l) = digit_sum (drop 7 l)) →
    count_beautiful_numbers = mret (Z.of_nat (length L)).
Proof.
  assert (Hc : count_beautiful_numbers = mret (count_if beautiful (digit_seqs 13))).
  { rewrite count_beautiful. unfold count_beautiful_numbers.
    destruct (count_loop_prefix (kMaxSum + 1)) as [-> _]; [by vm_compute|].
    apply mret_eq, sum_of_ext. intros s Hs%elem_of_seqZ.
    unfold term, ways.
    rewrite (ways_for_sum_count s); [reflexivity|].
    unfold ways_for_sum_max, binomial_n_5_max.
    change (Int.min_signed W32) with (-2147483648).
    change (kMaxSum + 1) with 73 in Hs. lia. }
  split_and!.
  - exact Hc.
  - apply NoDup_digit_seqs.
  - apply elem_of_digit_seqs.
  - intros L HL Hiff. rewrite Hc. apply mret_eq. symmetry.
    apply (length_enumeration
             (λ l, digit_sum (take 6 l) = digit_sum (drop 7 l))).
    + apply NoDup_digit_seqs.
    + exact HL.
    + intros l. rewrite Hiff, elem_of_digit_seqs. tauto.
Qed.

Lemma count_beautiful_numbers_counts_beautiful_witness :
  [0; 0; 0; 0; 0; 0; 0; 0; 0; 0; 0; 0; 0] ∈ digit_seqs 13.
Proof.
  apply (proj1 (proj2 (proj2 count_beautiful_numbers_counts_beautiful))).
  split; [reflexivity | repeat constructor; lia].
Defined.

(** ** More on [binomial_n_5] and the tables *)

Lemma choose_pos (n k : nat) : (k ≤ n)%nat → 0 < choose n k.
Proof.
  revert k. induction n as [|n IH]; intros [|k] Hk; cbn [choose]; try lia.
  pose proof (IH k ltac:(lia)). pose proof (choose_nonneg n (S k)). lia.
Qed.

Lemma choose_succ_le (n k : nat) : choose n k ≤ choose (S n) k.
Proof.
  destruct k as [|k]; cbn [choose]; [by rewrite choose_0|].
  pose proof (choose_nonneg n k). lia.
Qed.

Lemma choose_mono (n m k : nat) : (n ≤ m)%nat → choose n k ≤ choose m k.
Proof.
  induction 1 as [|m _ IH]; [lia|].
  pose proof (choose_succ_le m k). lia.
Qed.

Lemma choose_succ_lt (n k : nat) :
  (k ≤ n)%nat → choose n (S k) < choose (S n) (S k).
Proof.
  intros Hk. cbn [choose]. pose proof (choose_pos n k Hk). lia.
Qed.

(** X3. On its defined range [binomial_n_5] is non-negative and monotone,
    and from 4 on strictly increasing. *)
Theorem binomial_n_5_monotone (n m : Z) :
  n ≤ m → m ≤ 6210 →
  0 ≤ value (binomial_n_5 n) ≤ value (binomial_n_5 m) ∧
  (4 ≤ n → n < m → value (binomial_n_5 n) < value (binomial_n_5 m)).
Proof.
  intros Hnm Hm.
  rewrite !binomial_n_5_choose5 by (unfold binomial_n_5_max; lia).
  cbn [value mret M_ret]. unfold choose5. split_and!.
  - apply choose_nonneg.
  - apply choose_mono. lia.
  - intros Hn Hlt.
    eapply Z.lt_le_trans; [apply (choose_succ_lt (Z.to_nat n) 4); lia|].
    apply choose_mono. lia.
Qed.

Lemma binomial_n_5_monotone_witness :
  0 ≤ value (binomial_n_5 5) ≤ value (binomial_n_5 77) ∧
  value (binomial_n_5 5) < value (binomial_n_5 77).
Proof.
  assert (H1 : 5 ≤ 77) by lia.
  assert (H2 : 77 ≤ 6210) by lia.
  assert (H3 : 4 ≤ 5) by lia.
  assert (H4 : 5 < 77) by lia.
  destruct (binomial_n_5_monotone 5 77 H1 H2) as [A B].
  exact (conj A (B H3 H4)).
Defined.

(** X4. The table [kBinom6] is the row [C(6,0) .. C(6,6)] of Pascal's
    triangle: every read the loop of [ways_for_sum] makes, at [k] from 0 to
    6, is inside the array and yields [C(6,k)]. *)
Theorem kBinom6_is_binomial_row (k : Z) :
  0 ≤ k ≤ kDigits →
  array_get kBinom6 k = mret (choose 6 (Z.to_nat k)) ∧
  length kBinom6 = Z.to_nat (kDigits + 1).
Proof.
  intros Hk. split; [|done].
  apply array_get_in; [lia|]. apply kBinom6_choose. unfold kDigits in Hk. lia.
Qed.

Lemma kBinom6_is_binomial_row_witness :
  array_get kBinom6 3 = mret (choose 6 (Z.to_nat 3)).
Proof.
  assert (H : 0 ≤ 3 ≤ kDigits) by (unfold kDigits; lia).
  exact (proj1 (kBinom6_is_binomial_row 3 H)).
Defined.

(** X5. While no digit can reach 13, that is for [s] from 0 to 12, only the
    first term of the sum is taken and [ways_for_sum s = C(s+5,5)]; at the
    other end, for [s] from 60 to 72, [ways_for_sum s = C(77-s,5)]. *)
Theorem ways_for_sum_tails (s : Z) :
  0 ≤ s ≤ 12 →
  ways_for_sum s = binomial_n_5 (s + 5) ∧
  ways_for_sum s = mret (choose5 (s + 5)) ∧
  ways_for_sum (72 - s) = mret (choose5 (s + 5)).
Proof.
  intros Hs.
  rewrite <- choose5_div by lia.
  rewrite binomial_n_5_exact by (unfold binomial_n_5_max; lia).
  assert (Hc : forallb (λ s, M_eqb (ways_for_sum s) (mret (falling5 (s + 5) / 120))
                          && M_eqb (ways_for_sum (72 - s))
                                   (mret (falling5 (s + 5) / 120)))
                       (seqZ 0 13) = true) by (vm_compute; reflexivity).
  pose proof (forallb_seqZ _ _ _ Hc s ltac:(lia)) as H.
  apply andb_true_iff in H as [H1%M_eqb_eq H2%M_eqb_eq].
  rewrite H1, H2. split_and!; reflexivity.
Qed.

Lemma ways_for_sum_tails_witness :
  ways_for_sum 12 = mret (choose5 (12 + 5)).
Proof.
  assert (H : 0 ≤ 12 ≤ 12) by lia.
  exact (proj1 (proj2 (ways_for_sum_tails 12 H))).
Defined.

(** X6. Every half-sum from 0 to 72 is reached by at least one sequence and
    by at most 204763; the values rise strictly up to the middle [s = 36],
    which alone attains the maximum. *)
Theorem ways_for_sum_unimodal (s : Z) :
  0 ≤ s ≤ 72 →
  1 ≤ value (ways_for_sum s) ≤ 204763 ∧
  (s < 36 → value (ways_for_sum s) < value (ways_for_sum (s + 1))) ∧
  (value (ways_for_sum s) = 204763 ↔ s = 36).
Proof.
  intros Hs.
  assert (Hc : forallb (λ s, let v := value (ways_for_sum s) in
                  (1 <=? v) && (v <=? 204763)
                  && ((36 <=? s) || (v <? value (ways_for_sum (s + 1))))
                  && Bool.eqb (v =? 204763) (s =? 36))
                       (seqZ 0 73) = true) by (vm_compute; reflexivity).
  pose proof (forallb_seqZ _ _ _ Hc s ltac:(lia)) as H. cbv zeta in H.
  apply andb_true_iff in H as [H H4]. apply andb_true_iff in H as [H H3].
  apply andb_true_iff in H as [H1%Z.leb_le H2%Z.leb_le].
  apply Bool.eqb_prop in H4.
  split_and!; [done | done | |].
  - intros Hlt. apply orb_true_iff in H3 as [H3%Z.leb_le | H3%Z.ltb_lt]; [lia | done].
  - rewrite <- Z.eqb_eq, H4. apply Z.eqb_eq.
Qed.

Lemma ways_for_sum_unimodal_witness :
  1 ≤ value (ways_for_sum 35) ≤ 204763 ∧
  value (ways_for_sum 35) < value (ways_for_sum (35 + 1)).
Proof.
  assert (H : 0 ≤ 35 ≤ 72) by lia.
  assert (H' : 35 < 36) by lia.
  destruct (ways_for_sum_unimodal 35 H) as (A & B & _).
  exact (conj A (B H')).
Defined.

(** X7. Wherever [ways_for_sum] is defined, from the least [int] up to 6205,
    leaving the loop early loses nothing: the result is the full seven-term
    inclusion-exclusion sum. *)
Theorem ways_for_sum_inclusion_exclusion_everywhere (s : Z) :
  Int.min_signed W32 ≤ s ≤ 6205 →
  ways_for_sum s = mret (inclusion_exclusion s).
Proof.
  intros [Hlo Hhi].
  assert (Hmax : kMaxSum = 72) by done.
  destruct (Z.lt_ge_cases s 0) as [Hneg | Hnn].
  - rewrite ways_for_sum_negative by done. apply mret_eq. symmetry.
    unfold inclusion_exclusion.
    transitivity (sum_of (λ _ : Z, 0) (seqZ 0 7)); [|apply sum_of_zero].
    apply sum_of_ext. intros k Hk%elem_of_seqZ.
    rewrite binomial_n_5_below by lia. apply Z.mul_0_r.
  - destruct (Z.le_gt_cases s kMaxSum) as [Hin | Hout].
    + by apply ways_for_sum_in_range.
    + rewrite ways_for_sum_above by (unfold ways_for_sum_max, binomial_n_5_max; lia).
      apply mret_eq. symmetry. apply Z.eqb_eq.
      assert (Hc : forallb (λ s, inclusion_exclusion s =? 0)
                           (seqZ 73 6133) = true) by (vm_compute; reflexivity).
      apply (forallb_seqZ _ _ _ Hc). lia.
Qed.

Lemma ways_for_sum_inclusion_exclusion_everywhere_witness :
  ways_for_sum 1000 = mret (inclusion_exclusion 1000).
Proof.
  apply (ways_for_sum_inclusion_exclusion_everywhere 1000). by vm_compute.
Defined.
